(** * numpyro.contrib.funsor.infer_util

    A shallow embedding of [plate_to_enum_plate], [config_enumerate] and
    [log_density] from [numpyro/contrib/funsor/infer_util.py], together with
    the properties of these three functions.

    Python dictionaries are finite maps ([gmap]), frozensets are finite sets
    ([gset]); exceptions are an explicit error result; the process-wide
    binding of [numpyro.plate.__new__] is threaded as an explicit world. *)

From stdpp Require Import base option list gmap strings.
From Stdlib Require Import ZArith NArith.
From Stdlib Require Ascii String.

Open Scope Z_scope.
Open Scope string_scope.

(** ** Python values, exceptions and results *)

(** The values that occur in a site's [infer] dictionary. *)
Inductive pyval :=
  | PyNone
  | PyBool (b : bool)
  | PyInt (z : Z)
  | PyStr (s : string)
  | PyDimToName (d : gmap Z string).

Inductive exn :=
  | KeyError (key : string)
  | Exception (msg : string).

Inductive result (A : Type) :=
  | Ok (a : A)
  | Raise (e : exn).
Arguments Ok {A} a.
Arguments Raise {A} e.

Definition bind {A B} (r : result A) (k : A -> result B) : result B :=
  match r with
  | Ok a => k a
  | Raise e => Raise e
  end.

Notation "x <- r ;; k" := (bind r (fun x => k))
  (at level 100, r at next level, right associativity).

Definition result_map {A B} (f : A -> B) (r : result A) : result B :=
  x <- r ;; Ok (f x).

(** [d[key]] on a dictionary: a missing key raises [KeyError]. *)
Definition getitem (d : gmap string pyval) (key : string) : result pyval :=
  match d !! key with
  | Some v => Ok v
  | None => Raise (KeyError key)
  end.

(** [d.get(key, default)]. *)
Definition dict_get (d : gmap string pyval) (key : string) (default : pyval) : pyval :=
  match d !! key with
  | Some v => v
  | None => default
  end.

(** [d.update(e)]: the entries of [e] win. *)
Definition dict_update (d e : gmap string pyval) : gmap string pyval := e ∪ d.

(** ** The external collaborators

    Arrays, the funsor terms and the arithmetic on them belong to jax and
    funsor; [is_identically_one] lives in [numpyro.distributions.util].  They
    are taken as an interface. *)
Class Runtime := {
  Tensor : Type;
  Intermediate : Type;
  Scale : Type;
  Funsor : Type;
  Args : Type;
  Kwargs : Type;
  Params : Type;
  (* numpyro.distributions.util.is_identically_one *)
  is_identically_one : Scale -> bool;
  (* scale * log_prob *)
  scale_mul : Scale -> Tensor -> Tensor;
  (* funsor.to_funsor(x, output=funsor.reals(), dim_to_name=...) *)
  to_funsor : Tensor -> pyval -> Funsor;
  (* funsor.sum_product.sum_product(logaddexp, add, factors, eliminate, plates)
     under the lazy interpretation *)
  sum_product : list Funsor -> gset string -> gset string -> Funsor;
  (* funsor.optimizer.apply_optimizer *)
  apply_optimizer : Funsor -> Funsor;
  (* result.data *)
  data : Funsor -> Tensor
}.

(** ** Sites *)

Section Sites.
Context `{Runtime}.

(** A distribution is used through [log_prob] (called with one or with two
    arguments) and [has_enumerate_support] only. *)
Record distribution := {
  log_prob : Tensor -> option (list Intermediate) -> Tensor;
  has_enumerate_support : bool
}.

(** [CondIndepStackFrame(name, dim, size)]. *)
Record CondIndepStackFrame := {
  frame_name : string;
  frame_dim : option Z;
  frame_size : Z
}.

Record site := {
  type : string;
  name : string;
  fn : distribution;
  value : Tensor;
  intermediates : list Intermediate;
  is_observed : bool;
  scale : option Scale;
  cond_indep_stack : list CondIndepStackFrame;
  infer : gmap string pyval
}.

Definition set_infer (s : site) (d : gmap string pyval) : site :=
  {| type := type s; name := name s; fn := fn s; value := value s;
     intermediates := intermediates s; is_observed := is_observed s;
     scale := scale s; cond_indep_stack := cond_indep_stack s;
     infer := d |}.

Definition set_scale (s : site) (sc : option Scale) : site :=
  {| type := type s; name := name s; fn := fn s; value := value s;
     intermediates := intermediates s; is_observed := is_observed s;
     scale := sc; cond_indep_stack := cond_indep_stack s;
     infer := infer s |}.

End Sites.

(** ** The plate constructor and the world

    [numpyro.plate.__new__] is a process-wide, mutable class attribute.  The
    world holds the function object currently bound to it and the allocation
    counter that gives every newly created function object its identity. *)

Inductive pyclass :=
  | numpyro_plate                      (* numpyro.plate *)
  | plate_subclass (cname : string)    (* a class deriving from numpyro.plate *)
  | enum_plate.                        (* numpyro.contrib.funsor.enum_messenger.plate *)

Record plate_args := {
  arg_name : string;
  arg_size : Z;
  arg_dim : option Z
}.

(** An instance: its class, and the arguments [__init__] ran with, if it ran. *)
Record pyobject := {
  ob_class : pyclass;
  ob_init : option plate_args
}.

(** The code a function object bound to [numpyro.plate.__new__] can carry. *)
Inductive new_code :=
  | object_new      (* object.__new__, inherited while nothing is patched *)
  | enum_lambda     (* lambda cls, *args, **kwargs: enum_plate( *args, **kwargs ) *)
  | restore_lambda. (* lambda *args, **kwargs: object.__new__(numpyro.plate) *)

Record function := {
  func_id : nat;
  func_code : new_code
}.

Record World := {
  plate_new : function;
  next_id : nat
}.

(** Evaluating a [lambda] expression creates a new function object. *)
Definition lambda (c : new_code) (w : World) : function * World :=
  ({| func_id := next_id w; func_code := c |},
   {| plate_new := plate_new w; next_id := S (next_id w) |}).

(** [numpyro.plate.__new__ = f]. *)
Definition assign_plate_new (f : function) (w : World) : World :=
  {| plate_new := f; next_id := next_id w |}.

(** [isinstance(o, cls)] for the classes at hand. *)
Definition isinstance (o : pyobject) (cls : pyclass) : bool :=
  match ob_class o, cls with
  | numpyro_plate, numpyro_plate => true
  | plate_subclass _, numpyro_plate => true
  | plate_subclass a, plate_subclass b => bool_decide (a = b)
  | enum_plate, enum_plate => true
  | _, _ => false
  end.

(** Calling the function with a class and the plate arguments. *)
Definition call_new (c : new_code) (cls : pyclass) (args : plate_args) : pyobject :=
  match c with
  | object_new => {| ob_class := cls; ob_init := None |}
  | enum_lambda => {| ob_class := enum_plate; ob_init := Some args |}
  | restore_lambda => {| ob_class := numpyro_plate; ob_init := None |}
  end.

(** Calling the class [cls], [numpyro.plate] or one deriving from it, that
    is [type.__call__]: the object comes from [cls.__new__], which is looked
    up on [numpyro.plate], and [__init__] runs on it only when it is an
    instance of [cls]. *)
Definition type_call (cls : pyclass) (args : plate_args) (w : World) : pyobject :=
  let o := call_new (func_code (plate_new w)) cls args in
  if isinstance o cls then {| ob_class := ob_class o; ob_init := Some args |} else o.

(** Calling [numpyro.plate]. *)
Definition construct_plate (args : plate_args) (w : World) : pyobject :=
  type_call numpyro_plate args w.

(** An ordinary, initialised [numpyro.plate]. *)
Definition ordinary_plate (args : plate_args) : pyobject :=
  {| ob_class := numpyro_plate; ob_init := Some args |}.

(** ** plate_to_enum_plate

    The generator behind the context manager has three control points: not
    started, suspended at the [yield] inside [try], and finished. *)
Inductive gen_state :=
  | gen_created
  | gen_suspended
  | gen_closed.

Inductive gen_outcome :=
  | Yielded
  | StopIteration
  | Propagated (e : exn).

(** The [finally] block. *)
Definition plate_to_enum_plate_finally (w : World) : World :=
  let '(f, w1) := lambda restore_lambda w in
  assign_plate_new f w1.

(** [next(gen)]. *)
Definition gen_next (g : gen_state) (w : World) : gen_outcome * gen_state * World :=
  match g with
  | gen_created =>
      let '(f, w1) := lambda enum_lambda w in
      (Yielded, gen_suspended, assign_plate_new f w1)
  | gen_suspended => (StopIteration, gen_closed, plate_to_enum_plate_finally w)
  | gen_closed => (StopIteration, gen_closed, w)
  end.

(** [gen.throw(e)]: the exception is raised at the suspended [yield], the
    [finally] block runs and the exception propagates. *)
Definition gen_throw (e : exn) (g : gen_state) (w : World) : gen_outcome * gen_state * World :=
  match g with
  | gen_suspended => (Propagated e, gen_closed, plate_to_enum_plate_finally w)
  | gen_created | gen_closed => (Propagated e, gen_closed, w)
  end.

(** [with plate_to_enum_plate(): body], following [contextlib]:
    [__enter__] advances the generator to its [yield]; [__exit__] resumes it
    on a normal exit and throws the pending exception into it otherwise; the
    exception of the body is re-raised by the [with] statement. *)
Definition plate_to_enum_plate {A} (body : World -> result A * World)
    (w : World) : result A * World :=
  let '(_, g, w1) := gen_next gen_created w in
  let '(r, w2) := body w1 in
  match r with
  | Ok a => let '(_, _, w3) := gen_next g w2 in (Ok a, w3)
  | Raise e => let '(_, _, w3) := gen_throw e g w2 in (Raise e, w3)
  end.

(** The world the body of the scope starts in. *)
Definition entered (w : World) : World :=
  let '(_, _, w1) := gen_next gen_created w in w1.

(** ** Models and handlers *)

Section Models.
Context `{Runtime}.

(** A model is a callable with NumPyro primitives.  Run with its arguments
    in a world, it raises or it issues its statements; what an enclosing
    handler gets to see is the sequence of their sites, in program order. *)
Definition Model : Type :=
  Args -> Kwargs -> World -> result (list site) * World.

(** [numpyro.handlers.substitute] and the packing [trace] of
    [numpyro.contrib.funsor.enum_messenger] are collaborators of this
    module. *)
Class Handlers := {
  substitute : Model -> Params -> Model;
  packed_trace : Model -> Model
}.

(** ** config_enumerate *)

Definition config_fn (default : pyval) (s : site) : gmap string pyval :=
  if bool_decide (type s = "sample") && negb (is_observed s)
     && has_enumerate_support (fn s)
  then {[ "enumerate" := dict_get (infer s) "enumerate" default ]}
  else ∅.

(** What [infer_config] does to one site. *)
Definition process_message (config_fn : site -> gmap string pyval) (msg : site) : site :=
  set_infer msg (dict_update (infer msg) (config_fn msg)).

(** Modelled from the spec: [infer_config] of
    [numpyro.contrib.funsor.enum_messenger] is not among the sources.  The
    wrapper inspects every statement as it is recorded and sets, in the
    statement's [infer] mapping, the entries that the configuration function
    returns for it; nothing else of the statement changes, and a wrapper
    around a wrapped model sees the statements the inner wrapper already
    treated. *)
Definition infer_config (fn : Model) (config_fn : site -> gmap string pyval) : Model :=
  fun args kwargs w =>
    let '(r, w') := fn args kwargs w in
    (result_map (fmap (process_message config_fn)) r, w').

Definition config_enumerate (fn : Model) (default : pyval) : Model :=
  infer_config fn (config_fn default).

(** The site that [config_enumerate] hands on for a site of the model. *)
Definition configured (default : pyval) (s : site) : site :=
  process_message (config_fn default) s.

(** The sites the configurator is meant for. *)
Definition enumerable_latent (s : site) : Prop :=
  type s = "sample" /\ is_observed s = false /\ has_enumerate_support (fn s) = true.

(** The strategy a site carries: the entry of its [infer] mapping, if any. *)
Definition strategy (s : site) : option pyval := infer s !! "enumerate".

(** Section 4.1 of the specification, in its words: a latent site with
    enumerable support gets its own strategy if it has one and the default
    otherwise, and nothing else of it changes; any other site is left as it
    is. *)
Definition configured_spec (default : pyval) (s s' : site) : Prop :=
  (enumerable_latent s ->
     strategy s' = Some (match strategy s with Some v => v | None => default end)
     /\ (forall key, key <> "enumerate" -> infer s' !! key = infer s !! key)
     /\ set_infer s' (infer s) = s)
  /\ (~ enumerable_latent s -> s' = s).

(** ** log_density *)

(** What the loop over the trace accumulates. *)
Record factors := {
  log_factors : list Funsor;
  sum_vars : gset string;
  prod_vars : gset string
}.

Definition no_factors : factors :=
  {| log_factors := []; sum_vars := ∅; prod_vars := ∅ |}.

(** Lines 104-107: the one-argument or the two-argument form of [log_prob]. *)
Definition raw_log_prob (s : site) : Tensor :=
  match intermediates s with
  | [] => log_prob (fn s) (value s) None
  | _ :: _ => log_prob (fn s) (value s) (Some (intermediates s))
  end.

(** Lines 109-110. *)
Definition scaled_log_prob (s : site) : Tensor :=
  match scale s with
  | Some sc =>
      if negb (is_identically_one sc) then scale_mul sc (raw_log_prob s)
      else raw_log_prob s
  | None => raw_log_prob s
  end.

(** The names of the frames of a stack that have a dim. *)
Definition plate_names (stack : list CondIndepStackFrame) : gset string :=
  list_to_set (frame_name <$> filter (fun f => frame_dim f <> None) stack).

(** The body of the loop, for one site of the trace. *)
Definition log_density_step (st : factors) (s : site) : result factors :=
  if bool_decide (type s = "sample") then
    dim_to_name <- getitem (infer s) "dim_to_name" ;;
    Ok {| log_factors := log_factors st ++ [to_funsor (scaled_log_prob s) dim_to_name];
          sum_vars := sum_vars st ∪ {[ name s ]};
          prod_vars := prod_vars st ∪ plate_names (cond_indep_stack s) |}
  else Ok st.

Fixpoint log_density_loop (model_trace : list site) (st : factors) : result factors :=
  match model_trace with
  | [] => Ok st
  | s :: rest => st' <- log_density_step st s ;; log_density_loop rest st'
  end.

Definition log_density `{Handlers} (model : Model) (model_args : Args)
    (model_kwargs : Kwargs) (params : Params) (w : World)
    : result (Tensor * list site) * World :=
  let model := substitute model params in
  let '(r, w') :=
    plate_to_enum_plate (packed_trace model model_args model_kwargs) w in
  (model_trace <- r ;;
   st <- log_density_loop model_trace no_factors ;;
   let lazy_result :=
     sum_product (log_factors st) (sum_vars st ∪ prod_vars st) (prod_vars st) in
   let result := apply_optimizer lazy_result in
   Ok (data result, model_trace),
   w').

(** The sample sites of a trace. *)
Definition sample_sites (model_trace : list site) : list site :=
  filter (fun s => type s = "sample") model_trace.

(** A trace is packed when each of its sample sites has its [dim_to_name]. *)
Definition packed (model_trace : list site) : Prop :=
  Forall (fun s => type s = "sample" -> is_Some (infer s !! "dim_to_name")) model_trace.

(** Section 4.4 of the specification, in its words, for the factor [t] of a
    site: the log-probability is taken with the two-argument form when the
    intermediates are non-empty and with the one-argument form otherwise,
    and it is multiplied by the scale when, and only when, the site has a
    scale that is not identically one. *)
Definition factor_spec (s : site) (t : Tensor) : Prop :=
  exists lp,
    (intermediates s <> [] -> lp = log_prob (fn s) (value s) (Some (intermediates s)))
    /\ (intermediates s = [] -> lp = log_prob (fn s) (value s) None)
    /\ (forall sc, scale s = Some sc -> is_identically_one sc = false ->
          t = scale_mul sc lp)
    /\ (scale s = None \/ (exists sc, scale s = Some sc /\ is_identically_one sc = true) ->
          t = lp).

End Models.

(** ** setup.py: finding the version

    Lines 13-16 of [setup.py] read [numpyro/version.py] line by line and bind
    [version] from every line that starts with [__version__ = ].  A Python
    string is the list of its code points. *)

Definition str : Type := list N.

(** The code points of a literal. *)
Definition codes (s : string) : str :=
  Ascii.N_of_ascii <$> String.list_ascii_of_string s.

(** The characters that [str.strip] and [str.split] take for whitespace. *)
Definition isspace (c : N) : bool :=
  ((9 <=? c) && (c <=? 13) || (28 <=? c) && (c <=? 32)
   || (c =? 133) || (c =? 160) || (c =? 5760)
   || (8192 <=? c) && (c <=? 8202)
   || (c =? 8232) || (c =? 8233) || (c =? 8239) || (c =? 8287)
   || (c =? 12288))%N.

(** [s.startswith(p)]. *)
Definition startswith (s p : str) : bool :=
  bool_decide (take (length p) s = p).

Fixpoint lstrip (s : str) : str :=
  match s with
  | [] => []
  | c :: s' => if isspace c then lstrip s' else s
  end.

Definition rstrip (s : str) : str := rev (lstrip (rev s)).

(** [s.strip()]. *)
Definition strip (s : str) : str := rstrip (lstrip s).

(** The word collected so far, if there is one. *)
Definition emit (cur : str) : list str :=
  match cur with
  | [] => []
  | _ :: _ => [rev cur]
  end.

(** [s.split()]: the maximal runs of characters that are not whitespace;
    [cur] holds, reversed, the run being read. *)
Fixpoint split_from (cur : str) (s : str) : list str :=
  match s with
  | [] => emit cur
  | c :: s' =>
      if isspace c then (emit cur ++ split_from [] s')%list
      else split_from (c :: cur) s'
  end.

Definition split (s : str) : list str := split_from [] s.

(** [s[start:stop]], with Python's treatment of negative and out-of-range
    bounds. *)
Definition getslice (s : str) (start stop : Z) : str :=
  let n := Z.of_nat (length s) in
  let clamp := fun i : Z => if Z.ltb i 0 then Z.max (i + n) 0 else Z.min i n in
  take (Z.to_nat (clamp stop - clamp start)) (drop (Z.to_nat (clamp start)) s).

Inductive script_exn :=
  | IndexError
  | NameError.

Inductive outcome (A : Type) :=
  | Return (a : A)
  | Throw (e : script_exn).
Arguments Return {A} a.
Arguments Throw {A} e.

(** [l[i]] on a list, for [i] that is not negative. *)
Definition list_getitem (l : list str) (i : nat) : outcome str :=
  match l !! i with
  | Some x => Return x
  | None => Throw IndexError
  end.

Definition version_prefix : str := codes "__version__ = ".

(** The body of the loop: the binding of [version] after one more line. *)
Definition find_version_step (version : option str) (line : str)
    : outcome (option str) :=
  if startswith line version_prefix then
    match list_getitem (split (strip line)) 2 with
    | Return field => Return (Some (getslice field 1 (-1)))
    | Throw e => Throw e
    end
  else Return version.

Fixpoint find_version_loop (lines : list str) (version : option str)
    : outcome (option str) :=
  match lines with
  | [] => Return version
  | line :: rest =>
      match find_version_step version line with
      | Return version' => find_version_loop rest version'
      | Throw e => Throw e
      end
  end.

(** The version handed to [setup]: reading the name [version] fails when no
    line has bound it. *)
Definition find_version (lines : list str) : outcome str :=
  match find_version_loop lines None with
  | Return (Some version) => Return version
  | Return None => Throw NameError
  | Throw e => Throw e
  end.

(** ** Concrete inputs

    An instance of the interface over the integers, and a few sites, models
    and worlds, on which the definitions can be run. *)

Definition Z_runtime : Runtime :=
  {| Tensor := Z; Intermediate := Z; Scale := Z; Funsor := Z;
     Args := unit; Kwargs := unit; Params := unit;
     is_identically_one := fun sc => Z.eqb sc 1;
     scale_mul := Z.mul;
     to_funsor := fun t _ => t;
     sum_product := fun fs _ _ => foldr Z.add 0 fs;
     apply_optimizer := fun f => f;
     data := fun f => f |}.

(** The world of a fresh process: nothing is patched. *)
Definition fresh_world : World :=
  {| plate_new := {| func_id := 0; func_code := object_new |}; next_id := 1 |}.

Definition plate_N : plate_args :=
  {| arg_name := "N"; arg_size := 3; arg_dim := Some (-1) |}.

(** A body that constructs a plate and returns it. *)
Definition body_returns (w : World) : result pyobject * World :=
  (Ok (construct_plate plate_N w), w).

(** A body that fails. *)
Definition body_raises (w : World) : result pyobject * World :=
  (Raise (Exception "shape mismatch"), w).

Section Concrete.
#[local] Existing Instance Z_runtime.

(** A distribution with finite support and one without. *)
Definition coin : @distribution Z_runtime :=
  {| log_prob := fun v im => match im with None => v - 2 | Some _ => v - 7 end;
     has_enumerate_support := true |}.

Definition gauss : @distribution Z_runtime :=
  {| log_prob := fun v _ => - (v * v); has_enumerate_support := false |}.

Definition dims : gmap string pyval :=
  {[ "dim_to_name" := PyDimToName {[ -1 := "N" ]} ]}.

Definition frame_N : CondIndepStackFrame :=
  {| frame_name := "N"; frame_dim := Some (-1); frame_size := 3 |}.

Definition frame_unused : CondIndepStackFrame :=
  {| frame_name := "M"; frame_dim := None; frame_size := 0 |}.

(** A discrete latent site, outside of any plate. *)
Definition site_z : @site Z_runtime :=
  {| type := "sample"; name := "z"; fn := coin; value := 1;
     intermediates := []; is_observed := false; scale := None;
     cond_indep_stack := []; infer := dims |}.

(** A discrete latent site that brings its own strategy. *)
Definition site_c : @site Z_runtime :=
  {| type := "sample"; name := "c"; fn := coin; value := 0;
     intermediates := [5]; is_observed := false; scale := Some 1;
     cond_indep_stack := [frame_N];
     infer := <[ "enumerate" := PyStr "sequential" ]> dims |}.

(** An observed site in two plates, one of which has no dim. *)
Definition site_y : @site Z_runtime :=
  {| type := "sample"; name := "y"; fn := gauss; value := 3;
     intermediates := []; is_observed := true; scale := Some 2;
     cond_indep_stack := [frame_unused; frame_N]; infer := dims |}.

(** A site that is not a sample site. *)
Definition site_p : @site Z_runtime :=
  {| type := "param"; name := "p"; fn := gauss; value := 4;
     intermediates := []; is_observed := false; scale := None;
     cond_indep_stack := []; infer := ∅ |}.

Definition trace_zcyp : list (@site Z_runtime) := [site_z; site_c; site_y; site_p].

(** A model that issues these four statements. *)
Definition model_zcyp : @Model Z_runtime :=
  fun _ _ w => (Ok trace_zcyp, w).

(** Handlers that hand the model on as it is. *)
Definition plain_handlers : @Handlers Z_runtime :=
  {| substitute := fun m _ => m; packed_trace := fun m => m |}.

End Concrete.

(** ** Properties of plate_to_enum_plate *)

Lemma finally_binds_restore_lambda (w : World) :
  plate_new (plate_to_enum_plate_finally w)
  = {| func_id := next_id w; func_code := restore_lambda |}.
Proof. reflexivity. Qed.

Lemma finally_next_id (w : World) :
  next_id (plate_to_enum_plate_finally w) = S (next_id w).
Proof. reflexivity. Qed.

Lemma entered_next_id (w : World) : next_id (entered w) = S (next_id w).
Proof. reflexivity. Qed.

(** Inside the scope the plate statement builds the funsor-based plate. *)
Lemma construct_plate_entered (w : World) (args : plate_args) :
  construct_plate args (entered w)
  = {| ob_class := enum_plate; ob_init := Some args |}.
Proof. reflexivity. Qed.

(** The scope, unfolded along the two ways its body can end. *)
Lemma plate_to_enum_plate_unfold {A} (body : World -> result A * World) (w : World) :
  plate_to_enum_plate body w
  = (fst (body (entered w)), plate_to_enum_plate_finally (snd (body (entered w)))).
Proof.
  unfold plate_to_enum_plate, entered. simpl.
  destruct (body _) as [r w2]. destruct r as [a|e]; reflexivity.
Qed.

Lemma construct_plate_after_finally (w : World) (args : plate_args) :
  construct_plate args (plate_to_enum_plate_finally w) = ordinary_plate args.
Proof. reflexivity. Qed.

Example scope_normal_exit :
  plate_to_enum_plate body_returns fresh_world
  = (Ok {| ob_class := enum_plate; ob_init := Some plate_N |},
     {| plate_new := {| func_id := 2; func_code := restore_lambda |}; next_id := 3 |}).
Proof. reflexivity. Qed.

Example scope_exceptional_exit :
  plate_to_enum_plate body_raises fresh_world
  = (Raise (Exception "shape mismatch"),
     {| plate_new := {| func_id := 2; func_code := restore_lambda |}; next_id := 3 |}).
Proof. reflexivity. Qed.

(** C4. However the body of the [plate_to_enum_plate] scope ends, by
    returning or by raising, the scope ends the same way, and every
    construction of [numpyro.plate] in the world it leaves behind yields an
    ordinary, initialised [numpyro.plate], not the funsor-based plate. *)
Theorem plate_to_enum_plate_restores {A} (body : World -> result A * World)
    (w : World) :
  fst (plate_to_enum_plate body w) = fst (body (entered w))
  /\ forall args,
       construct_plate args (snd (plate_to_enum_plate body w)) = ordinary_plate args.
Proof.
  rewrite plate_to_enum_plate_unfold. split; [reflexivity|].
  intros args. apply construct_plate_after_finally.
Qed.

(** C10. After the scope, [numpyro.plate.__new__] is bound to a function
    created by the [finally] block: it returns a bare instance of
    [numpyro.plate] whatever class and arguments it is called with, and it is
    not the function object that was bound before the scope was entered,
    although the plates constructed through it are ordinary ones.  The
    function bound before is assumed to exist (its identity is below the
    allocation counter) and the body not to turn the counter back. *)
Theorem plate_new_after_scope {A} (body : World -> result A * World) (w : World) :
  (func_id (plate_new w) < next_id w)%nat ->
  (forall w0, (next_id w0 <= next_id (snd (body w0)))%nat) ->
  let w' := snd (plate_to_enum_plate body w) in
  func_code (plate_new w') = restore_lambda
  /\ (forall cls args,
        call_new (func_code (plate_new w')) cls args
        = {| ob_class := numpyro_plate; ob_init := None |})
  /\ (next_id w <= func_id (plate_new w'))%nat
  /\ plate_new w' <> plate_new w
  /\ forall args, construct_plate args w' = ordinary_plate args.
Proof.
  intros Hold Hbody w'. subst w'.
  rewrite plate_to_enum_plate_unfold. cbn [snd].
  rewrite finally_binds_restore_lambda. cbn [func_code func_id].
  pose proof (Hbody (entered w)) as Hmono. rewrite entered_next_id in Hmono.
  repeat split.
  - lia.
  - intros Heq. rewrite <- Heq in Hold. cbn [func_id] in Hold. lia.
Qed.

Lemma plate_new_after_scope_witness :
  (func_id (plate_new fresh_world) < next_id fresh_world)%nat
  /\ plate_new (snd (plate_to_enum_plate body_raises fresh_world))
     <> plate_new fresh_world.
Proof.
  split; [cbn; lia|].
  apply (plate_new_after_scope body_raises fresh_world).
  - cbn; lia.
  - intros w0; cbn; lia.
Defined.

(** ** Properties of config_enumerate *)

Section ConfigEnumerate.
Context `{Runtime}.

Lemma configured_fields (default : pyval) (s : site) :
  type (configured default s) = type s
  /\ is_observed (configured default s) = is_observed s
  /\ fn (configured default s) = fn s
  /\ set_infer (configured default s) (infer s) = s.
Proof. destruct s; repeat split. Qed.

Lemma config_fn_enumerable (default : pyval) (s : site) :
  enumerable_latent s ->
  config_fn default s = {[ "enumerate" := dict_get (infer s) "enumerate" default ]}.
Proof.
  intros (Ht & Ho & He). unfold config_fn.
  rewrite bool_decide_eq_true_2 by exact Ht. rewrite Ho, He. reflexivity.
Qed.

Lemma config_fn_other (default : pyval) (s : site) :
  ~ enumerable_latent s -> config_fn default s = ∅.
Proof.
  intros Hn. unfold config_fn.
  destruct (bool_decide (type s = "sample")) eqn:Ht; [|reflexivity].
  destruct (is_observed s) eqn:Ho; [reflexivity|].
  destruct (has_enumerate_support (fn s)) eqn:He; [|reflexivity].
  exfalso. apply Hn. apply bool_decide_eq_true_1 in Ht. by repeat split.
Qed.

Lemma enumerable_latent_dec (s : site) :
  enumerable_latent s \/ ~ enumerable_latent s.
Proof.
  unfold enumerable_latent.
  destruct (decide (type s = "sample")); [|tauto].
  destruct (is_observed s); [right; intros (_ & ? & _); discriminate|].
  destruct (has_enumerate_support (fn s)); [tauto|].
  right; intros (_ & _ & ?); discriminate.
Qed.

Lemma configured_other (default : pyval) (s : site) :
  ~ enumerable_latent s -> configured default s = s.
Proof.
  intros Hn. unfold configured, process_message, dict_update.
  rewrite (config_fn_other _ _ Hn), (left_id_L ∅ (∪)). by destruct s.
Qed.

Lemma configured_infer (default : pyval) (s : site) :
  enumerable_latent s ->
  infer (configured default s)
  = <[ "enumerate" := dict_get (infer s) "enumerate" default ]> (infer s).
Proof.
  intros He. unfold configured, process_message, dict_update.
  rewrite (config_fn_enumerable _ _ He). cbn [set_infer infer].
  by rewrite insert_union_singleton_l.
Qed.

Lemma configured_strategy (default : pyval) (s : site) :
  enumerable_latent s ->
  strategy (configured default s)
  = Some (match strategy s with Some v => v | None => default end).
Proof.
  intros He. unfold strategy. rewrite (configured_infer _ _ He).
  by rewrite lookup_insert_eq.
Qed.

Lemma configured_enumerable (default : pyval) (s : site) :
  enumerable_latent s -> enumerable_latent (configured default s).
Proof.
  unfold enumerable_latent. destruct (configured_fields default s) as (-> & -> & -> & _).
  tauto.
Qed.

Lemma configured_meets_spec (default : pyval) (s : site) :
  configured_spec default s (configured default s).
Proof.
  split.
  - intros He. split; [by apply configured_strategy|]. split.
    + intros key Hkey. rewrite (configured_infer _ _ He).
      by rewrite lookup_insert_ne.
    + apply configured_fields.
  - apply configured_other.
Qed.

(** A site that carries a strategy is handed on as it is. *)
Lemma configured_carrying (default v : pyval) (s : site) :
  strategy s = Some v -> configured default s = s.
Proof.
  intros Hv. destruct (enumerable_latent_dec s) as [He|Hn].
  - pose proof (configured_infer default s He) as Hi.
    unfold dict_get in Hi. fold (strategy s) in Hi. rewrite Hv in Hi.
    rewrite insert_id in Hi by exact Hv.
    destruct (configured_fields default s) as (_ & _ & _ & Hrest).
    rewrite <- Hrest at 2. rewrite <- Hi. by destruct (configured default s).
  - by apply configured_other.
Qed.

(** Configuring a configured site changes nothing, whatever the defaults. *)
Lemma configured_twice (d1 d2 : pyval) (s : site) :
  configured d2 (configured d1 s) = configured d1 s.
Proof.
  destruct (enumerable_latent_dec s) as [He|Hn].
  - pose proof (configured_enumerable d1 s He) as He'.
    pose proof (configured_infer d2 _ He') as Hi.
    unfold dict_get in Hi at 1.
    fold (strategy (configured d1 s)) in Hi.
    rewrite (configured_strategy d1 s He) in Hi.
    rewrite insert_id in Hi by (by apply configured_strategy).
    destruct (configured_fields d2 (configured d1 s)) as (_ & _ & _ & Hrest).
    rewrite <- Hrest at 2. rewrite <- Hi. by destruct (configured d2 _).
  - by rewrite (configured_other d1 s Hn), (configured_other d2 s Hn).
Qed.

Lemma config_enumerate_run (fn : Model) (default : pyval) args kwargs w :
  config_enumerate fn default args kwargs w
  = (result_map (fmap (configured default)) (fst (fn args kwargs w)),
     snd (fn args kwargs w)).
Proof.
  unfold config_enumerate, infer_config. by destruct (fn args kwargs w).
Qed.

End ConfigEnumerate.

Example config_enumerate_on_model :
  fst (config_enumerate model_zcyp (PyStr "parallel") () () fresh_world)
  = Ok [set_infer site_z (<[ "enumerate" := PyStr "parallel" ]> dims);
        site_c; site_y; site_p].
Proof. vm_compute. reflexivity. Qed.

Example config_enumerate_sequential :
  strategy <$> [site_z; site_y]
  = [None; None]
  /\ result_map (fmap strategy)
       (fst (config_enumerate (fun _ _ w => (Ok [site_z; site_y], w))
               (PyStr "sequential") () () fresh_world))
     = Ok [Some (PyStr "sequential"); None].
Proof. split; vm_compute; reflexivity. Qed.

Example config_enumerate_None :
  result_map (fmap strategy)
    (fst (config_enumerate (fun _ _ w => (Ok [site_z; site_y], w))
            PyNone () () fresh_world))
  = Ok [Some PyNone; None].
Proof. vm_compute. reflexivity. Qed.

(** C5, as stated, does not hold: with the default ["sequential"], the
    latent site [z] of a model, which has no strategy of its own, leaves
    [config_enumerate] with the strategy ["sequential"] attached. *)
Lemma config_enumerate_default_attached :
  ~ (forall (default : pyval) (fn : @Model Z_runtime) args kwargs w tr,
       default <> PyStr "parallel" ->
       fst (config_enumerate fn default args kwargs w) = Ok tr ->
       Forall (fun s => strategy s = None) tr).
Proof.
  intros Hall.
  specialize (Hall (PyStr "sequential") (fun _ _ w => (Ok [site_z; site_y], w))
                tt tt fresh_world _ ltac:(discriminate) eq_refl).
  apply Forall_cons_1 in Hall as [Hz _]. vm_compute in Hz. discriminate Hz.
Qed.

Section ConfigEnumerateResults.
Context `{Runtime}.

(** C5, amended. [config_enumerate] accepts every default, ["parallel"] or
    not: the wrapped model ends as the model does and hands on the
    configured sites, and a latent sample site with enumerable support and
    no strategy of its own gets the default itself attached as its
    strategy. *)
Theorem config_enumerate_any_default (fn : Model) (default : pyval) args kwargs w
    (tr : list site) :
  fst (fn args kwargs w) = Ok tr ->
  fst (config_enumerate fn default args kwargs w) = Ok (configured default <$> tr)
  /\ forall s, s ∈ tr -> enumerable_latent s -> strategy s = None ->
       strategy (configured default s) = Some default.
Proof.
  intros Hrun. rewrite config_enumerate_run, Hrun. split; [reflexivity|].
  intros s _ He Hs. by rewrite (configured_strategy _ _ He), Hs.
Qed.

(** C6. [config_enumerate] ends as the model does and leaves the world as
    the model does; of a model that issues its statements it hands on, site
    by site, what Section 4.1 asks for: a non-observed sample site whose
    distribution has enumerable support has as strategy its own
    [infer['enumerate']] if it has one and the default otherwise, with
    everything else as before, and any other site is unmodified. *)
Theorem config_enumerate_sites (fn : Model) (default : pyval) args kwargs w :
  snd (config_enumerate fn default args kwargs w) = snd (fn args kwargs w)
  /\ match fst (fn args kwargs w) with
     | Ok tr =>
         exists tr', fst (config_enumerate fn default args kwargs w) = Ok tr'
                     /\ Forall2 (configured_spec default) tr tr'
     | Raise e => fst (config_enumerate fn default args kwargs w) = Raise e
     end.
Proof.
  rewrite config_enumerate_run. split; [reflexivity|].
  destruct (fst (fn args kwargs w)) as [tr|e]; [|reflexivity].
  exists (configured default <$> tr). split; [reflexivity|].
  apply Forall2_fmap_r, Forall_Forall2_diag, Forall_forall.
  intros s _. apply configured_meets_spec.
Qed.

(** C8. Wrapping a model by [config_enumerate] twice, with any two
    defaults, gives what wrapping it once gives: the runs agree, no site
    that carries a strategy gets another one, and configuring a configured
    site changes nothing. *)
Theorem config_enumerate_twice (fn : Model) (d1 d2 : pyval) args kwargs w :
  config_enumerate (config_enumerate fn d1) d2 args kwargs w
  = config_enumerate fn d1 args kwargs w
  /\ (forall s v, strategy s = Some v ->
        strategy (configured d2 (configured d1 s)) = Some v)
  /\ (forall s, configured d2 (configured d1 s) = configured d1 s).
Proof.
  split; [|split].
  - rewrite !config_enumerate_run. cbn [fst snd]. f_equal.
    destruct (fst (fn args kwargs w)) as [tr|e]; [|reflexivity].
    cbn. f_equal. rewrite <- list_fmap_compose.
    apply list_fmap_ext. intros i s _. apply configured_twice.
  - intros s v Hv.
    by rewrite (configured_carrying d1 v s Hv), (configured_carrying d2 v s Hv).
  - apply configured_twice.
Qed.

End ConfigEnumerateResults.

Lemma config_enumerate_any_default_witness :
  fst (model_zcyp () () fresh_world) = Ok trace_zcyp
  /\ strategy (configured (H := Z_runtime) PyNone site_z) = Some PyNone.
Proof.
  split; [reflexivity|].
  apply (proj2 (config_enumerate_any_default (H := Z_runtime) model_zcyp PyNone
                  tt tt fresh_world trace_zcyp eq_refl) site_z).
  - apply list_elem_of_here.
  - repeat split.
  - vm_compute. reflexivity.
Defined.

(** ** Properties of log_density *)

Section LogDensity.
Context `{Runtime}.

Lemma elem_of_plate_names (x : string) (stack : list CondIndepStackFrame) :
  x ∈ plate_names stack
  <-> exists f, f ∈ stack /\ frame_dim f <> None /\ frame_name f = x.
Proof.
  unfold plate_names. rewrite elem_of_list_to_set, list_elem_of_fmap. split.
  - intros (f & -> & Hf). apply list_elem_of_filter in Hf as [Hd Hf]. by exists f.
  - intros (f & Hf & Hd & <-). exists f. split; [reflexivity|].
    by apply list_elem_of_filter.
Qed.

Lemma elem_of_sample_sites (s : site) (model_trace : list site) :
  s ∈ sample_sites model_trace <-> s ∈ model_trace /\ type s = "sample".
Proof. unfold sample_sites. rewrite list_elem_of_filter. tauto. Qed.

Lemma log_density_step_sample (st : factors) (s : site) (d : pyval) :
  type s = "sample" -> infer s !! "dim_to_name" = Some d ->
  log_density_step st s
  = Ok {| log_factors := log_factors st ++ [to_funsor (scaled_log_prob s) d];
          sum_vars := sum_vars st ∪ {[ name s ]};
          prod_vars := prod_vars st ∪ plate_names (cond_indep_stack s) |}.
Proof.
  intros Ht Hd. unfold log_density_step, getitem.
  rewrite bool_decide_eq_true_2 by exact Ht. by rewrite Hd.
Qed.

Lemma log_density_step_skip (st : factors) (s : site) :
  type s <> "sample" -> log_density_step st s = Ok st.
Proof.
  intros Ht. unfold log_density_step. by rewrite bool_decide_eq_false_2.
Qed.

Lemma log_density_step_unpacked (st : factors) (s : site) :
  type s = "sample" -> infer s !! "dim_to_name" = None ->
  log_density_step st s = Raise (KeyError "dim_to_name").
Proof.
  intros Ht Hd. unfold log_density_step, getitem.
  rewrite bool_decide_eq_true_2 by exact Ht. by rewrite Hd.
Qed.

(** The loop goes through on a packed trace. *)
Lemma log_density_loop_packed (model_trace : list site) (st0 : factors) :
  packed model_trace -> exists st, log_density_loop model_trace st0 = Ok st.
Proof.
  intros Hp. revert st0. induction Hp as [|s rest Hs _ IH]; intros st0.
  - by exists st0.
  - cbn [log_density_loop]. destruct (decide (type s = "sample")) as [Ht|Ht].
    + destruct (Hs Ht) as [d Hd].
      rewrite (log_density_step_sample st0 s d Ht Hd). cbn [bind]. apply IH.
    + rewrite (log_density_step_skip st0 s Ht). cbn [bind]. apply IH.
Qed.

(** What the loop has accumulated when it is through. *)
Lemma log_density_loop_sets (model_trace : list site) (st0 st : factors) :
  log_density_loop model_trace st0 = Ok st ->
  sum_vars st = sum_vars st0 ∪ list_to_set (name <$> sample_sites model_trace)
  /\ prod_vars st
     = prod_vars st0
       ∪ ⋃ ((fun s => plate_names (cond_indep_stack s)) <$> sample_sites model_trace).
Proof.
  revert st0. induction model_trace as [|s rest IH]; intros st0 Hrun.
  - cbn in Hrun. injection Hrun as <-. cbn. by rewrite !(right_id_L ∅ (∪)).
  - cbn [log_density_loop] in Hrun. unfold sample_sites. rewrite filter_cons.
    fold (sample_sites rest). destruct (decide (type s = "sample")) as [Ht|Ht].
    + destruct (infer s !! "dim_to_name") as [d|] eqn:Hd.
      * rewrite (log_density_step_sample st0 s d Ht Hd) in Hrun. cbn [bind] in Hrun.
        destruct (IH _ Hrun) as [-> ->]. cbn. by rewrite !(assoc_L (∪)).
      * rewrite (log_density_step_unpacked st0 s Ht Hd) in Hrun. discriminate Hrun.
    + rewrite (log_density_step_skip st0 s Ht) in Hrun. cbn [bind] in Hrun.
      exact (IH _ Hrun).
Qed.

(** The factors, one per sample site, in the order of the trace. *)
Lemma log_density_loop_factors (model_trace : list site) (st0 st : factors) :
  log_density_loop model_trace st0 = Ok st ->
  exists fs, log_factors st = (log_factors st0 ++ fs)%list
    /\ Forall2 (fun s f => exists d, infer s !! "dim_to_name" = Some d
                                     /\ f = to_funsor (scaled_log_prob s) d)
         (sample_sites model_trace) fs.
Proof.
  revert st0. induction model_trace as [|s rest IH]; intros st0 Hrun.
  - cbn in Hrun. injection Hrun as <-. exists []. split; [by rewrite app_nil_r|].
    constructor.
  - cbn [log_density_loop] in Hrun. unfold sample_sites. rewrite filter_cons.
    fold (sample_sites rest). destruct (decide (type s = "sample")) as [Ht|Ht].
    + destruct (infer s !! "dim_to_name") as [d|] eqn:Hd.
      * rewrite (log_density_step_sample st0 s d Ht Hd) in Hrun. cbn [bind] in Hrun.
        destruct (IH _ Hrun) as (fs & Hfs & Hall). cbn [log_factors] in Hfs.
        exists (to_funsor (scaled_log_prob s) d :: fs). split.
        -- by rewrite Hfs, <- app_assoc.
        -- constructor; [by exists d|exact Hall].
      * rewrite (log_density_step_unpacked st0 s Ht Hd) in Hrun. discriminate Hrun.
    + rewrite (log_density_step_skip st0 s Ht) in Hrun. cbn [bind] in Hrun.
      exact (IH _ Hrun).
Qed.

(** [log_density], once the trace is there and the loop is through. *)
Lemma log_density_run `{Handlers} (model : Model) model_args model_kwargs params
    (w : World) (model_trace : list site) (st : factors) :
  fst (packed_trace (substitute model params) model_args model_kwargs (entered w))
  = Ok model_trace ->
  log_density_loop model_trace no_factors = Ok st ->
  fst (log_density model model_args model_kwargs params w)
  = Ok (data (apply_optimizer
                (sum_product (log_factors st) (sum_vars st ∪ prod_vars st)
                   (prod_vars st))),
        model_trace).
Proof.
  intros Htrace Hloop. unfold log_density.
  rewrite plate_to_enum_plate_unfold, Htrace. cbn [fst bind]. by rewrite Hloop.
Qed.

End LogDensity.

Example log_density_on_model :
  fst (log_density (H := Z_runtime) (H0 := plain_handlers) model_zcyp () () () fresh_world)
  = Ok (-26, trace_zcyp)
  /\ result_map (fun st => (log_factors st, elements (sum_vars st), elements (prod_vars st)))
       (log_density_loop trace_zcyp no_factors)
     = Ok ([-1; -7; -18], elements ({[ "z"; "c"; "y" ]} : gset string),
           elements ({[ "N" ]} : gset string)).
Proof. split; vm_compute; reflexivity. Qed.

Example log_density_unpacked_trace :
  log_density_loop [site_z; set_infer site_y ∅] no_factors
  = Raise (KeyError "dim_to_name").
Proof. vm_compute. reflexivity. Qed.

Lemma packed_trace_zcyp : packed trace_zcyp.
Proof.
  unfold packed, trace_zcyp.
  repeat apply Forall_cons_2; try apply Forall_nil_2;
    intros Ht; first [discriminate Ht | by eexists].
Defined.

Section LogDensityResults.
Context `{Runtime}.

Lemma scaled_log_prob_meets_spec (s : site) : factor_spec s (scaled_log_prob s).
Proof.
  exists (raw_log_prob s). unfold scaled_log_prob, raw_log_prob.
  split; [|split; [|split]].
  - intros Hi. by destruct (intermediates s).
  - by intros ->.
  - intros sc -> Hone. by rewrite Hone.
  - intros [->|(sc & -> & Hone)]; [reflexivity|]. by rewrite Hone.
Qed.

(** C2. On a packed trace the loop of [log_density] goes through, and the
    sets it has built are these: [sum_vars] holds exactly the names of the
    sites of type ["sample"], observed or not; [prod_vars] holds exactly the
    names of the frames with a dim ([dim is not None]) in the
    [cond_indep_stack] of some sample site.  A sample site with an empty
    [cond_indep_stack] adds its name to [sum_vars] and leaves [prod_vars] as
    it is. *)
Theorem log_density_elimination_sets (model_trace : list site) :
  packed model_trace ->
  exists st, log_density_loop model_trace no_factors = Ok st
    /\ sum_vars st = list_to_set (name <$> sample_sites model_trace)
    /\ prod_vars st
       = ⋃ ((fun s => plate_names (cond_indep_stack s)) <$> sample_sites model_trace)
    /\ (forall x, x ∈ sum_vars st
          <-> exists s, s ∈ model_trace /\ type s = "sample" /\ name s = x)
    /\ (forall x, x ∈ prod_vars st
          <-> exists s f, s ∈ model_trace /\ type s = "sample"
                /\ f ∈ cond_indep_stack s /\ frame_dim f <> None /\ frame_name f = x)
    /\ (forall st0 s d, type s = "sample" -> cond_indep_stack s = [] ->
          infer s !! "dim_to_name" = Some d ->
          exists st1, log_density_step st0 s = Ok st1
            /\ sum_vars st1 = sum_vars st0 ∪ {[ name s ]}
            /\ prod_vars st1 = prod_vars st0).
Proof.
  intros Hp. destruct (log_density_loop_packed model_trace no_factors Hp) as [st Hst].
  exists st. split; [exact Hst|].
  destruct (log_density_loop_sets _ _ _ Hst) as [Hsum Hprod].
  cbn [no_factors sum_vars prod_vars] in Hsum, Hprod.
  rewrite (left_id_L ∅ (∪)) in Hsum, Hprod.
  split; [exact Hsum|]. split; [exact Hprod|]. split; [|split].
  - intros x. rewrite Hsum, elem_of_list_to_set, list_elem_of_fmap. split.
    + intros (s & -> & Hs). apply elem_of_sample_sites in Hs as [Hs Ht]. by exists s.
    + intros (s & Hs & Ht & <-). exists s. split; [reflexivity|].
      by apply elem_of_sample_sites.
  - intros x. rewrite Hprod, elem_of_union_list. split.
    + intros (X & HX & Hx). apply list_elem_of_fmap in HX as (s & -> & Hs).
      apply elem_of_sample_sites in Hs as [Hs Ht].
      apply elem_of_plate_names in Hx as (f & Hf & Hd & Hn). by exists s, f.
    + intros (s & f & Hs & Ht & Hf & Hd & Hn).
      exists (plate_names (cond_indep_stack s)). split.
      * apply list_elem_of_fmap. exists s. split; [reflexivity|].
        by apply elem_of_sample_sites.
      * apply elem_of_plate_names. by exists f.
  - intros st0 s d Ht Hstack Hd. eexists. split.
    + by apply log_density_step_sample.
    + cbn [sum_vars prod_vars]. split; [reflexivity|].
      rewrite Hstack. cbn. by rewrite (right_id_L ∅ (∪)).
Qed.

(** C3. On a packed trace the loop of [log_density] goes through and has one
    factor per sample site, in the order of the trace: the site's [log_prob],
    in the two-argument form [(value, intermediates)] when the intermediates
    are non-empty and in the one-argument form otherwise, multiplied by the
    site's scale exactly when there is a scale and it is not identically
    one, and then passed to [to_funsor] with the site's [dim_to_name].
    Where multiplying by a scale that is identically one changes nothing,
    the factor of a site with scale [sc] is [sc * log_prob] throughout. *)
Theorem log_density_site_factors (model_trace : list site) :
  packed model_trace ->
  exists st, log_density_loop model_trace no_factors = Ok st
    /\ Forall2 (fun s f => exists d, infer s !! "dim_to_name" = Some d
                  /\ f = to_funsor (scaled_log_prob s) d
                  /\ factor_spec s (scaled_log_prob s))
         (sample_sites model_trace) (log_factors st)
    /\ ((forall sc t, is_identically_one sc = true -> scale_mul sc t = t) ->
        forall s sc, scale s = Some sc ->
          scaled_log_prob s = scale_mul sc (raw_log_prob s)).
Proof.
  intros Hp. destruct (log_density_loop_packed model_trace no_factors Hp) as [st Hst].
  exists st. split; [exact Hst|]. split.
  - destruct (log_density_loop_factors _ _ _ Hst) as (fs & Hfs & Hall).
    cbn [no_factors log_factors app] in Hfs. rewrite Hfs.
    eapply Forall2_impl; [exact Hall|].
    intros s f (d & Hd & Hf). exists d. repeat split; try done.
    apply scaled_log_prob_meets_spec.
  - intros Hone s sc Hsc. unfold scaled_log_prob. rewrite Hsc.
    destruct (is_identically_one sc) eqn:E; cbn [negb]; [|reflexivity].
    symmetry. by apply Hone.
Qed.

(** C9. A sample site whose scale is [None] is not scaled: its factor is its
    raw log-probability, and the loop treats it exactly as it treats the
    same site with a scale that is identically one. *)
Theorem log_density_scale_None (s : site) :
  scale s = None ->
  scaled_log_prob s = raw_log_prob s
  /\ forall sc, is_identically_one sc = true ->
       scaled_log_prob (set_scale s (Some sc)) = scaled_log_prob s
       /\ forall st, log_density_step st (set_scale s (Some sc)) = log_density_step st s.
Proof.
  intros Hnone.
  assert (Hraw : scaled_log_prob s = raw_log_prob s)
    by (unfold scaled_log_prob; by rewrite Hnone).
  split; [exact Hraw|]. intros sc Hone.
  assert (Hsc : scaled_log_prob (set_scale s (Some sc)) = scaled_log_prob s).
  { rewrite Hraw. unfold scaled_log_prob. cbn [set_scale scale].
    rewrite Hone. by destruct s. }
  split; [exact Hsc|]. intros st. unfold log_density_step.
  rewrite Hsc. by destruct s.
Qed.

End LogDensityResults.

Lemma log_density_elimination_sets_witness :
  packed trace_zcyp
  /\ exists st, log_density_loop trace_zcyp no_factors = Ok st
       /\ sum_vars st = list_to_set (name <$> sample_sites trace_zcyp).
Proof.
  split; [exact packed_trace_zcyp|].
  destruct (log_density_elimination_sets (H := Z_runtime) trace_zcyp packed_trace_zcyp)
    as (st & Hst & Hsum & _).
  exists st. by split.
Defined.

Lemma log_density_site_factors_witness :
  packed trace_zcyp
  /\ (forall sc t : Z, is_identically_one (Runtime := Z_runtime) sc = true ->
        scale_mul (Runtime := Z_runtime) sc t = t)
  /\ scaled_log_prob site_y = scale_mul (Runtime := Z_runtime) 2 (raw_log_prob site_y).
Proof.
  assert (Hone : forall sc t : Z, is_identically_one (Runtime := Z_runtime) sc = true ->
                   scale_mul (Runtime := Z_runtime) sc t = t).
  { intros sc t Hsc. cbn in *. apply Z.eqb_eq in Hsc. subst sc. apply Z.mul_1_l. }
  split; [exact packed_trace_zcyp|]. split; [exact Hone|].
  destruct (log_density_site_factors (H := Z_runtime) trace_zcyp packed_trace_zcyp)
    as (st & _ & _ & Hscale).
  by apply Hscale.
Defined.

Lemma log_density_scale_None_witness :
  scale site_z = None
  /\ scaled_log_prob (set_scale site_z (Some 1)) = scaled_log_prob site_z.
Proof.
  split; [reflexivity|].
  by apply (log_density_scale_None (H := Z_runtime) site_z eq_refl).
Defined.

(** ** Further properties of plate_to_enum_plate *)

(** Inside the scope, calling [numpyro.plate], or a class deriving from it,
    yields the funsor-based plate, made from the arguments of the call,
    whatever was bound to [numpyro.plate.__new__] before; a body that returns
    the plate it constructs returns that plate. *)
Theorem plate_inside_scope (cls : pyclass) (args : plate_args) (w : World) :
  cls <> enum_plate ->
  type_call cls args (entered w) = {| ob_class := enum_plate; ob_init := Some args |}
  /\ fst (plate_to_enum_plate (fun w1 => (Ok (type_call cls args w1), w1)) w)
     = Ok {| ob_class := enum_plate; ob_init := Some args |}.
Proof.
  intros Hcls.
  assert (Hin : type_call cls args (entered w)
                = {| ob_class := enum_plate; ob_init := Some args |}).
  { unfold type_call, entered. cbn. unfold isinstance. cbn.
    destruct cls; [reflexivity|reflexivity|contradiction]. }
  split; [exact Hin|].
  rewrite plate_to_enum_plate_unfold. cbn [fst]. by rewrite Hin.
Qed.

Lemma plate_inside_scope_witness :
  plate_subclass "batch" <> enum_plate
  /\ type_call (plate_subclass "batch") plate_N (entered fresh_world)
     = {| ob_class := enum_plate; ob_init := Some plate_N |}.
Proof.
  split; [discriminate|].
  apply (plate_inside_scope (plate_subclass "batch") plate_N fresh_world).
  discriminate.
Defined.

(** The scope does not nest: when a scope is entered and left inside the
    body of another one, the rest of the outer body constructs ordinary
    plates again, however the inner body ended. *)
Theorem plate_to_enum_plate_nested {A} (inner : World -> result A * World)
    (args : plate_args) (w : World) :
  fst (plate_to_enum_plate
         (fun w1 => let '(_, w2) := plate_to_enum_plate inner w1 in
                    (Ok (construct_plate args w2), w2)) w)
  = Ok (ordinary_plate args).
Proof.
  rewrite plate_to_enum_plate_unfold. cbn [fst].
  rewrite (plate_to_enum_plate_unfold inner). cbn [fst snd].
  by rewrite construct_plate_after_finally.
Qed.

(** For a class deriving from [numpyro.plate] the scope does not give back
    what there was: while nothing is patched, calling the class yields an
    initialised instance of it; after a scope, calling it yields a bare
    [numpyro.plate] on which [__init__] has not run. *)
Theorem plate_subclass_after_scope {A} (body : World -> result A * World)
    (cname : string) (args : plate_args) (w : World) :
  func_code (plate_new w) = object_new ->
  type_call (plate_subclass cname) args w
  = {| ob_class := plate_subclass cname; ob_init := Some args |}
  /\ type_call (plate_subclass cname) args (snd (plate_to_enum_plate body w))
     = {| ob_class := numpyro_plate; ob_init := None |}.
Proof.
  intros Hnew. split.
  - unfold type_call. rewrite Hnew. cbn. unfold isinstance. cbn.
    by rewrite bool_decide_eq_true_2.
  - by rewrite plate_to_enum_plate_unfold.
Qed.

Lemma plate_subclass_after_scope_witness :
  func_code (plate_new fresh_world) = object_new
  /\ type_call (plate_subclass "batch") plate_N
       (snd (plate_to_enum_plate body_raises fresh_world))
     = {| ob_class := numpyro_plate; ob_init := None |}.
Proof.
  split; [reflexivity|].
  apply (plate_subclass_after_scope body_raises "batch" plate_N fresh_world eq_refl).
Defined.

(** ** Further properties of config_enumerate *)

Section ConfigEnumerateMore.
Context `{Runtime}.

(** [config_enumerate] changes exactly the latent sample sites with
    enumerable support that carry no strategy; a model all of whose such
    sites carry one runs under [config_enumerate] as it runs without,
    whatever the default. *)
Theorem config_enumerate_touches (default : pyval) :
  (forall s, configured default s = s
             <-> ~ enumerable_latent s \/ is_Some (strategy s))
  /\ forall (fn : Model) args kwargs w tr,
       fst (fn args kwargs w) = Ok tr ->
       Forall (fun s => enumerable_latent s -> is_Some (strategy s)) tr ->
       config_enumerate fn default args kwargs w = fn args kwargs w.
Proof.
  assert (Hsite : forall s, configured default s = s
                            <-> ~ enumerable_latent s \/ is_Some (strategy s)).
  { intros s. split.
    - intros Heq. destruct (enumerable_latent_dec s) as [He|Hn]; [|by left].
      right. rewrite <- Heq. rewrite (configured_strategy _ _ He). by eexists.
    - intros [Hn|[v Hv]]; [by apply configured_other|].
      by apply (configured_carrying default v). }
  split; [exact Hsite|].
  intros fn args kwargs w tr Hrun Hall.
  rewrite config_enumerate_run, Hrun. cbn [result_map bind].
  rewrite (surjective_pairing (fn args kwargs w)), Hrun. cbn [fst snd].
  do 2 f_equal. rewrite <- (list_fmap_id tr) at 2.
  apply list_fmap_ext. intros i s Hs. cbn [id]. apply Hsite.
  destruct (enumerable_latent_dec s) as [He|Hn]; [right|by left].
  apply list_elem_of_lookup_2 in Hs.
  rewrite Forall_forall in Hall. by apply Hall.
Qed.

End ConfigEnumerateMore.

Lemma config_enumerate_touches_witness :
  config_enumerate (H := Z_runtime) (fun _ _ w => (Ok [site_c; site_y; site_p], w))
    PyNone () () fresh_world
  = (Ok [site_c; site_y; site_p], fresh_world).
Proof.
  apply (proj2 (config_enumerate_touches (H := Z_runtime) PyNone)
           (fun _ _ w => (Ok [site_c; site_y; site_p], w)) tt tt fresh_world
           [site_c; site_y; site_p] eq_refl).
  repeat apply Forall_cons_2; try apply Forall_nil_2.
  - intros _. by eexists.
  - intros (_ & Ho & _). discriminate Ho.
  - intros (Ht & _). discriminate Ht.
Defined.

(** ** Further properties of log_density *)

Section LogDensityMore.
Context `{Runtime}.

Lemma log_density_step_set_infer (st : factors) (s : site) (d : gmap string pyval) :
  d !! "dim_to_name" = infer s !! "dim_to_name" ->
  log_density_step st (set_infer s d) = log_density_step st s.
Proof.
  intros Hd. unfold log_density_step, getitem. destruct s. cbn in *. by rewrite Hd.
Qed.

Lemma log_density_step_configured (default : pyval) (st : factors) (s : site) :
  log_density_step st (configured default s) = log_density_step st s.
Proof.
  destruct (enumerable_latent_dec s) as [He|Hn].
  - unfold configured, process_message. apply log_density_step_set_infer.
    fold (process_message (config_fn default) s). fold (configured default s).
    pose proof (configured_infer default s He) as Hi.
    unfold configured, process_message in Hi. cbn [set_infer infer] in Hi.
    rewrite Hi. by rewrite lookup_insert_ne.
  - by rewrite (configured_other _ _ Hn).
Qed.

(** The sites that are not of type ["sample"] do not count: the loop over a
    trace is the loop over its sample sites. *)
Theorem log_density_loop_sample_sites (model_trace : list site) (st : factors) :
  log_density_loop model_trace st = log_density_loop (sample_sites model_trace) st.
Proof.
  revert st. induction model_trace as [|s rest IH]; intros st; [reflexivity|].
  unfold sample_sites. rewrite filter_cons. fold (sample_sites rest).
  destruct (decide (type s = "sample")) as [Ht|Ht]; cbn [log_density_loop].
  - destruct (log_density_step st s); cbn [bind]; [apply IH|reflexivity].
  - rewrite (log_density_step_skip st s Ht). cbn [bind]. apply IH.
Qed.

(** The loop over two traces, one after the other, is the loop over the
    first followed by the loop over the second from where the first ended;
    an exception in the first part ends it. *)
Theorem log_density_loop_app (tr1 tr2 : list site) (st : factors) :
  log_density_loop (tr1 ++ tr2) st
  = (st' <- log_density_loop tr1 st ;; log_density_loop tr2 st').
Proof.
  revert st. induction tr1 as [|s rest IH]; intros st; [reflexivity|].
  cbn [app log_density_loop].
  destruct (log_density_step st s); cbn [bind]; [apply IH|reflexivity].
Qed.

Lemma log_density_loop_ok_packed (model_trace : list site) (st st' : factors) :
  log_density_loop model_trace st = Ok st' -> packed model_trace.
Proof.
  revert st. induction model_trace as [|s rest IH]; intros st Hrun;
    [apply Forall_nil_2|].
  cbn [log_density_loop] in Hrun.
  destruct (log_density_step st s) as [st1|e] eqn:Hstep; [|discriminate Hrun].
  cbn [bind] in Hrun. apply Forall_cons_2; [|exact (IH _ Hrun)].
  intros Ht. destruct (infer s !! "dim_to_name") as [d|] eqn:Hd; [by eexists|].
  rewrite (log_density_step_unpacked st s Ht Hd) in Hstep. discriminate Hstep.
Qed.



(** There is one factor per sample site, and when the sample sites have
    distinct names there are as many variables to sum out as factors. *)
Theorem log_density_loop_counts (model_trace : list site) (st : factors) :
  log_density_loop model_trace no_factors = Ok st ->
  length (log_factors st) = length (sample_sites model_trace)
  /\ (NoDup (name <$> sample_sites model_trace) ->
      size (sum_vars st) = length (log_factors st)).
Proof.
  intros Hrun.
  destruct (log_density_loop_factors _ _ _ Hrun) as (fs & Hfs & Hall).
  destruct (log_density_loop_sets _ _ _ Hrun) as [Hsum _].
  cbn [no_factors log_factors sum_vars app] in Hfs, Hsum.
  rewrite (left_id_L ∅ (∪)) in Hsum.
  assert (Hlen : length (log_factors st) = length (sample_sites model_trace))
    by (rewrite Hfs; symmetry; exact (Forall2_length _ _ _ Hall)).
  split; [exact Hlen|]. intros Hnd.
  by rewrite Hsum, (size_list_to_set _ Hnd), length_fmap, Hlen.
Qed.

(** The order of the trace matters to the order of the factors only: on a
    permutation of the trace the loop goes through as well, with the same
    [sum_vars], the same [prod_vars] and a permutation of the factors. *)
Theorem log_density_loop_permutation (tr tr' : list site) (st : factors) :
  tr ≡ₚ tr' ->
  log_density_loop tr no_factors = Ok st ->
  exists st', log_density_loop tr' no_factors = Ok st'
    /\ sum_vars st' = sum_vars st
    /\ prod_vars st' = prod_vars st
    /\ log_factors st' ≡ₚ log_factors st.
Proof.
  intros Hperm Hrun.
  pose proof (log_density_loop_ok_packed _ _ _ Hrun) as Hp.
  assert (Hp' : packed tr') by (unfold packed; by rewrite <- Hperm).
  destruct (log_density_loop_packed tr' no_factors Hp') as [st' Hrun'].
  exists st'. split; [exact Hrun'|].
  destruct (log_density_loop_sets _ _ _ Hrun) as [Hsum Hprod].
  destruct (log_density_loop_sets _ _ _ Hrun') as [Hsum' Hprod'].
  assert (Hss : sample_sites tr' ≡ₚ sample_sites tr)
    by (unfold sample_sites; by rewrite Hperm).
  split; [by rewrite Hsum, Hsum', Hss|]. split; [by rewrite Hprod, Hprod', Hss|].
  set (g := fun s : site =>
              to_funsor (scaled_log_prob s)
                (match infer s !! "dim_to_name" with Some d => d | None => PyNone end)).
  assert (Hg : forall l fs,
             Forall2 (fun s f => exists d, infer s !! "dim_to_name" = Some d
                                           /\ f = to_funsor (scaled_log_prob s) d) l fs ->
             fs = g <$> l).
  { intros l fs Hall. induction Hall as [|s f l fs (d & Hd & ->) _ IH]; [reflexivity|].
    cbn. f_equal; [|exact IH]. unfold g. by rewrite Hd. }
  destruct (log_density_loop_factors _ _ _ Hrun) as (fs & -> & Hall).
  destruct (log_density_loop_factors _ _ _ Hrun') as (fs' & -> & Hall').
  cbn [no_factors log_factors app].
  by rewrite (Hg _ _ Hall), (Hg _ _ Hall'), Hss.
Qed.

(** What [config_enumerate] writes into the sites does not enter the
    factors: the loop over the configured trace is the loop over the
    trace. *)
Theorem log_density_loop_configured (default : pyval) (model_trace : list site)
    (st : factors) :
  log_density_loop (configured default <$> model_trace) st
  = log_density_loop model_trace st.
Proof.
  revert st. induction model_trace as [|s rest IH]; intros st; [reflexivity|].
  cbn [fmap list_fmap log_density_loop]. rewrite log_density_step_configured.
  destruct (log_density_step st s); cbn [bind]; [apply IH|reflexivity].
Qed.


End LogDensityMore.

Lemma log_density_loop_counts_witness :
  exists st, log_density_loop trace_zcyp no_factors = Ok st
    /\ size (sum_vars st) = length (log_factors st).
Proof.
  assert (Hrun : { st | log_density_loop trace_zcyp no_factors = Ok st })
    by (eexists; vm_compute; reflexivity).
  destruct Hrun as [st Hst]. exists st. split; [exact Hst|].
  apply (log_density_loop_counts (H := Z_runtime) trace_zcyp st Hst).
  apply (bool_decide_unpack _). vm_compute. exact I.
Defined.

Lemma log_density_loop_permutation_witness :
  trace_zcyp ≡ₚ [site_c; site_z; site_y; site_p]
  /\ exists st st',
       log_density_loop trace_zcyp no_factors = Ok st
       /\ log_density_loop [site_c; site_z; site_y; site_p] no_factors = Ok st'
       /\ sum_vars st' = sum_vars st.
Proof.
  assert (Hperm : trace_zcyp ≡ₚ [site_c; site_z; site_y; site_p]) by apply perm_swap.
  split; [exact Hperm|].
  assert (Hrun : { st | log_density_loop trace_zcyp no_factors = Ok st })
    by (eexists; vm_compute; reflexivity).
  destruct Hrun as [st Hst].
  destruct (log_density_loop_permutation (H := Z_runtime) _ _ st Hperm Hst)
    as (st' & Hst' & Hsum & _).
  by exists st, st'.
Defined.

(** ** Properties of the version search of setup.py *)

Open Scope list_scope.

Lemma lstrip_spec (s : str) :
  exists ws, Forall (fun c => isspace c = true) ws /\ s = (ws ++ lstrip s)%list.
Proof.
  induction s as [|c s (ws & Hws & IH)]; [by exists []|].
  cbn [lstrip]. destruct (isspace c) eqn:Hc.
  - exists (c :: ws). split; [by constructor|]. cbn. by rewrite <- IH.
  - by exists [].
Qed.

Lemma split_from_spaces_l (ws s : str) :
  Forall (fun c => isspace c = true) ws -> split_from [] (ws ++ s) = split_from [] s.
Proof.
  induction 1 as [|c ws Hc _ IH]; [reflexivity|]. cbn. by rewrite Hc.
Qed.

Lemma split_from_spaces (cur ws : str) :
  Forall (fun c => isspace c = true) ws -> split_from cur ws = emit cur.
Proof.
  intros Hws. revert cur. induction Hws as [|c ws Hc _ IH]; intros cur; [reflexivity|].
  cbn [split_from]. rewrite Hc, (IH []). cbn. by rewrite app_nil_r.
Qed.

Lemma split_from_spaces_r (cur s ws : str) :
  Forall (fun c => isspace c = true) ws -> split_from cur (s ++ ws) = split_from cur s.
Proof.
  intros Hws. revert cur. induction s as [|c s IH]; intros cur.
  - by apply split_from_spaces.
  - cbn [app split_from]. destruct (isspace c); by rewrite IH.
Qed.

(** Stripping a string before splitting it makes no difference. *)
Lemma split_strip (s : str) : split (strip s) = split s.
Proof.
  unfold split, strip, rstrip.
  destruct (lstrip_spec s) as (ws & Hws & Hs).
  destruct (lstrip_spec (rev (lstrip s))) as (ws' & Hws' & Hs').
  rewrite Hs at 2. rewrite (split_from_spaces_l _ _ Hws).
  rewrite <- (rev_involutive (lstrip s)) at 2. rewrite Hs' at 2.
  rewrite rev_app_distr, split_from_spaces_r; [reflexivity|].
  by apply Forall_rev.
Qed.

Lemma split_from_word (cur tok s : str) :
  Forall (fun c => isspace c = false) tok ->
  split_from cur (tok ++ s) = split_from (rev tok ++ cur) s.
Proof.
  intros Htok. revert cur. induction Htok as [|c tok Hc _ IH]; intros cur; [reflexivity|].
  cbn [app split_from]. rewrite Hc, IH. cbn [rev]. by rewrite <- app_assoc.
Qed.

(** A word at the head of a string is its first field. *)
Lemma split_word (tok s : str) :
  tok <> [] -> Forall (fun c => isspace c = false) tok ->
  match s with [] => True | c :: _ => isspace c = true end ->
  split (tok ++ s) = tok :: split (drop 1 s).
Proof.
  intros Hne Htok Hs. unfold split. rewrite (split_from_word _ _ _ Htok), app_nil_r.
  assert (Hemit : emit (rev tok) = [tok]).
  { destruct (rev tok) as [|c r] eqn:Hr.
    - apply (f_equal (@rev N)) in Hr. rewrite rev_involutive in Hr. contradiction.
    - cbn [emit]. by rewrite <- Hr, rev_involutive. }
  destruct s as [|c s]; cbn [split_from drop]; [exact Hemit|].
  by rewrite Hs, Hemit.
Qed.

Lemma startswith_app (p rest : str) : startswith (p ++ rest) p = true.
Proof. unfold startswith. apply bool_decide_eq_true_2, take_app_length. Qed.

Lemma split_version_prefix (rest : str) :
  split (version_prefix ++ rest)
  = codes "__version__" :: codes "=" :: split rest.
Proof. reflexivity. Qed.

Lemma getslice_inner (q1 q2 : N) (v : str) :
  getslice (q1 :: v ++ [q2]) 1 (-1) = v.
Proof.
  unfold getslice. cbn [length]. rewrite length_app. cbn [length Z.ltb Z.compare].
  replace (Z.min 1 (Z.of_nat (S (length v + 1)))) with 1 by lia.
  replace (Z.max (-1 + Z.of_nat (S (length v + 1))) 0) with (Z.of_nat (length v) + 1)
    by lia.
  replace (Z.to_nat (Z.of_nat (length v) + 1 - 1)) with (length v) by lia.
  change (Z.to_nat 1) with 1%nat. cbn [drop]. apply take_app_length.
Qed.

Lemma find_version_step_match (version : option str) (rest : str) :
  find_version_step version (version_prefix ++ rest)
  = match split rest with
    | [] => Throw IndexError
    | field :: _ => Return (Some (getslice field 1 (-1)))
    end.
Proof.
  unfold find_version_step.
  rewrite startswith_app, split_strip, split_version_prefix.
  by destruct (split rest).
Qed.

Lemma find_version_loop_app (l1 l2 : list str) (version : option str) :
  find_version_loop (l1 ++ l2) version
  = match find_version_loop l1 version with
    | Return version' => find_version_loop l2 version'
    | Throw e => Throw e
    end.
Proof.
  revert version. induction l1 as [|line l1 IH]; intros version; [reflexivity|].
  cbn [app find_version_loop]. by destruct (find_version_step version line).
Qed.

Lemma find_version_loop_no_match (lines : list str) (version : option str) :
  Forall (fun line => startswith line version_prefix = false) lines ->
  find_version_loop lines version = Return version.
Proof.
  induction 1 as [|line lines Hline _ IH]; [reflexivity|].
  cbn [find_version_loop]. unfold find_version_step. by rewrite Hline.
Qed.

(** A line that does not start with [__version__ = ] leaves [version] as it
    is; for a line that does, [version] becomes the first word after this
    prefix without its first and its last character, whatever they are, and
    when only whitespace follows the prefix the index [2] raises
    [IndexError]. *)
Theorem find_version_step_line (version : option str) :
  (forall line, startswith line version_prefix = false ->
     find_version_step version line = Return version)
  /\ forall rest,
       find_version_step version (version_prefix ++ rest)
       = match split rest with
         | [] => Throw IndexError
         | field :: _ => Return (Some (getslice field 1 (-1)))
         end.
Proof.
  split.
  - intros line Hline. unfold find_version_step. by rewrite Hline.
  - apply find_version_step_match.
Qed.

(** The version written in the file is the version found: when the last
    line that starts with [__version__ = ] continues with a word [v] between
    two characters that are not whitespace, followed by nothing or by
    whitespace and anything else, and no earlier line fails, the search
    returns [v]. *)
Theorem find_version_written (before after : list str) (old : option str)
    (q1 q2 : N) (v tail : str) :
  find_version_loop before None = Return old ->
  isspace q1 = false -> isspace q2 = false ->
  Forall (fun c => isspace c = false) v ->
  match tail with [] => True | c :: _ => isspace c = true end ->
  Forall (fun line => startswith line version_prefix = false) after ->
  find_version (before ++ (version_prefix ++ q1 :: v ++ q2 :: tail) :: after)
  = Return v.
Proof.
  intros Hbefore Hq1 Hq2 Hv Htail Hafter. unfold find_version.
  rewrite find_version_loop_app, Hbefore. cbn [find_version_loop].
  rewrite find_version_step_match.
  replace (q1 :: v ++ q2 :: tail) with ((q1 :: v ++ [q2]) ++ tail)
    by (cbn; by rewrite <- app_assoc).
  rewrite split_word; [|discriminate| |exact Htail].
  - rewrite getslice_inner. by rewrite (find_version_loop_no_match _ _ Hafter).
  - apply Forall_cons_2; [exact Hq1|]. apply Forall_app_2; [exact Hv|].
    by apply Forall_cons_2.
Qed.

Lemma find_version_written_witness :
  find_version [codes "# Copyright"; codes "__version__ = '0.2.4'  # release";
                codes "del x"]
  = Return (codes "0.2.4").
Proof.
  apply (find_version_written [codes "# Copyright"] [codes "del x"] None
           39%N 39%N (codes "0.2.4") (codes "  # release")).
  - reflexivity.
  - reflexivity.
  - reflexivity.
  - by repeat constructor.
  - reflexivity.
  - by repeat constructor.
Defined.

(** When no line starts with [__version__ = ], as in an empty file, the name
    [version] is never bound and reading it raises [NameError]; a line in
    which whitespace precedes [__version__] does not start with it. *)
Theorem find_version_unbound (lines : list str) :
  Forall (fun line => startswith line version_prefix = false) lines ->
  find_version lines = Throw NameError
  /\ forall c line, isspace c = true -> startswith (c :: line) version_prefix = false.
Proof.
  intros Hlines. split.
  - unfold find_version. by rewrite (find_version_loop_no_match _ _ Hlines).
  - intros c line Hc. unfold startswith. apply bool_decide_eq_false_2.
    intros Heq. cbn in Heq. injection Heq as -> _. discriminate Hc.
Qed.

Lemma find_version_unbound_witness :
  find_version [codes "# Copyright"; codes "  __version__ = '0.2.4'"]
  = Throw NameError.
Proof.
  apply (find_version_unbound [codes "# Copyright"; codes "  __version__ = '0.2.4'"]).
  by repeat constructor.
Defined.

(** A line that consists of [__version__ = ] and whitespace stops the
    search with [IndexError], whatever version the lines before it gave and
    whatever lines follow. *)
Theorem find_version_index_error (before after : list str) (old : option str)
    (ws : str) :
  find_version_loop before None = Return old ->
  Forall (fun c => isspace c = true) ws ->
  find_version (before ++ (version_prefix ++ ws) :: after) = Throw IndexError.
Proof.
  intros Hbefore Hws. unfold find_version.
  rewrite find_version_loop_app, Hbefore. cbn [find_version_loop].
  rewrite find_version_step_match. unfold split.
  by rewrite (split_from_spaces _ _ Hws).
Qed.

Lemma find_version_index_error_witness :
  find_version [codes "__version__ = '0.2.3'"; version_prefix ++ [10%N];
                codes "__version__ = '0.2.4'"]
  = Throw IndexError.
Proof.
  apply (find_version_index_error [codes "__version__ = '0.2.3'"]
           [codes "__version__ = '0.2.4'"] (Some (codes "0.2.3")) [10%N]).
  - reflexivity.
  - by repeat constructor.
Defined.
